(** * TTN.ino: join-and-periodic-uplink sketch for the Heltec V3

    A shallow embedding of [setup()] and [loop()] of [src/TTN.ino].  The
    sketch talks to four collaborators that are not part of the repository:
    the serial port, the GPIO/SPI core, the RadioLib driver and the
    millisecond clock.  Every call the sketch makes to one of them is
    recorded as an [event]; every value a collaborator hands back is read
    from a [world].  The two places where the sketch can block for ever
    ([while (!Serial)] and [while (true)]) are control points of a small
    step machine, so that statements about executions that never return
    quantify over every number of steps. *)

From Stdlib Require Import ZArith List String Bool Lia Sorted.
Import ListNotations.
Local Open Scope string_scope.
Local Open Scope list_scope.
Local Open Scope Z_scope.

(** ** Constants of the external libraries *)

(** RadioLib's two result sentinels.  Their numeric values live in RadioLib's
    headers, not in the sketch, so they are parameters of the development. *)
Class RadioLib := {
  RADIOLIB_ERR_NONE : Z;
  RADIOLIB_LORAWAN_NEW_SESSION : Z
}.

(** The Arduino core's symbolic pin arguments. *)
Inductive pin_mode := INPUT | OUTPUT | INPUT_PULLUP.
Inductive pin_level := LOW | HIGH.

(** The MAC revisions named by the sketch and its README. *)
Inductive mac_version := LORAWAN_VERSION_1_0_3 | LORAWAN_VERSION_1_1_0.

(** ** Pin definitions and keys (lines 25-66) *)

Definition LORA_CS_PIN : Z := 8.
Definition LORA_DIO1_PIN : Z := 14.
Definition LORA_RST_PIN : Z := 12.
Definition LORA_BUSY_PIN : Z := 13.
Definition LORA_SCK_PIN : Z := 9.
Definition LORA_MISO_PIN : Z := 11.
Definition LORA_MOSI_PIN : Z := 10.
Definition LORA_RF_SW_VDD_PIN : Z := 14.

Definition joinEUI : Z := 0x0000000000000000.
Definition devEUI : Z := 0x0000000000000000.
(** Both keys are arrays of sixteen [0x00] bytes until the user pastes
    theirs. *)
Definition nwkKey : list Z := repeat 0x00 16.
Definition appKey : list Z := repeat 0x00 16.

(** ** Calls observed by the collaborators *)

Inductive event :=
| Serial_begin (baud : Z)
| Serial_ready (r : bool)          (* one evaluation of [Serial] at line 76 *)
| delay (ms : Z)
| Serial_print (s : string)
| Serial_println (s : string)
| Serial_println_int (n : Z)       (* [Serial.println(state)] *)
| Serial_println_empty             (* [Serial.println()] *)
| pinMode (pin : Z) (m : pin_mode)
| digitalWrite (pin : Z) (l : pin_level)
| SPI_begin (sck miso mosi ss : Z)
| setDio2AsRfSwitch (enable : bool)
| radio_begin
| setMacVersion (v : mac_version)
| beginOTAA (join dev : Z) (nwk app : list Z)
| activateOTAA
| millis (t : Z)                   (* [millis()] called at true time [t] *)
| sendReceive (payload : list Z) (len : Z).

(** ** What the collaborators answer *)

Record world := {
  (* value of [Serial] at its k-th evaluation *)
  serial_ready : nat -> bool;
  setDio2AsRfSwitch_result : Z;
  begin_result : Z;
  activateOTAA_result : Z;
  (* milliseconds since boot, unbounded, at the k-th call of [millis()] *)
  clock : nat -> Z;
  (* result of the k-th [sendReceive] *)
  sendReceive_result : nat -> Z
}.

(** [unsigned long] is 32 bits wide on the ESP32-S3. *)
Definition ULONG_MOD : Z := 2 ^ 32.

(** The value [millis()] returns at its k-th call: the clock, wrapped. *)
Definition millis_value (w : world) (k : nat) : Z := clock w k mod ULONG_MOD.

(** Subtraction of two [unsigned long] values. *)
Definition ulong_sub (a b : Z) : Z := (a - b) mod ULONG_MOD.

(** ** Control points *)

(** The static [lastSendTime] of [loop()], with the cursors into the
    world's [clock] and [sendReceive_result] answers. *)
Record loop_state := {
  lastSendTime : Z;
  millis_calls : nat;
  send_calls : nat
}.

Inductive control :=
| At_setup                          (* entry of [setup()], line 72 *)
| At_while_Serial (polls : nat)     (* line 76, after [polls] evaluations *)
| At_while_true                     (* line 110 *)
| At_loop (ls : loop_state).        (* between two passes of [loop()] *)

(** [static unsigned long lastSendTime = 0;] *)
Definition loop_init : loop_state :=
  {| lastSendTime := 0; millis_calls := 0; send_calls := 0 |}.

(** ** The join report (lines 126-131) *)

Inductive join_outcome :=
| Joined
| JoinFailed (code : Z).

Section Sketch.
Context {RL : RadioLib}.

(** The test of line 126. *)
Definition join_outcome_of (state : Z) : join_outcome :=
  if state =? RADIOLIB_LORAWAN_NEW_SESSION then Joined else JoinFailed state.

(** The two arms of that test. *)
Definition report_join (o : join_outcome) : list event :=
  match o with
  | Joined => [Serial_println "!!! JOINED SUCCESSFULLY !!!"]
  | JoinFailed state =>
      [Serial_print "Join FAILED. Error code: "; Serial_println_int state;
       Serial_println "Check Keys (nwkKey/appKey must be identical) and TTN settings (must be 1.0.3)."]
  end.

(** ** setup() *)

(** Line 72. *)
Definition setup_serial_begin : list event := [Serial_begin 115200].

(** Lines 76-78: one unsuccessful evaluation of the loop condition. *)
Definition setup_wait_once : list event := [Serial_ready false; delay 10].

(** Lines 80-93: banner, RF-switch power, SPI bus. *)
Definition setup_power : list event :=
  [Serial_println "--------------------------------";
   Serial_println "Heltec V3 Stable LoRaWAN (RadioLib)";
   Serial_println "--------------------------------";
   Serial_print "Powering RF Switch (Pin 14)... ";
   pinMode LORA_RF_SW_VDD_PIN OUTPUT;
   digitalWrite LORA_RF_SW_VDD_PIN HIGH;
   Serial_println "OK";
   Serial_print "Configuring SPI... ";
   SPI_begin LORA_SCK_PIN LORA_MISO_PIN LORA_MOSI_PIN LORA_CS_PIN;
   Serial_println "OK"].

(** Lines 96-103: RF-switch control mode, warn and go on. *)
Definition setup_rf_switch (w : world) : list event :=
  let state := setDio2AsRfSwitch_result w in
  [Serial_print "Initializing SX1262 radio... "; setDio2AsRfSwitch true]
  ++ (if state =? RADIOLIB_ERR_NONE then []
      else [Serial_print "setDio2AsRfSwitch failed! Code: ";
            Serial_println_int state]).

(** Lines 113-131: version, OTAA configuration, join. *)
Definition setup_join (w : world) : list event :=
  [Serial_println "Forcing LoRaWAN version 1.0.3...";
   setMacVersion LORAWAN_VERSION_1_0_3;
   Serial_println "Configuring OTAA...";
   beginOTAA joinEUI devEUI nwkKey appKey;
   Serial_println "Attempting to join TTN (JOIN)...";
   activateOTAA]
  ++ report_join (join_outcome_of (activateOTAA_result w)).

(** Lines 80-131: everything after the wait for the serial port.  The
    result is the control point reached: the idle loop of line 110 or the
    return to the Arduino core, which then calls [loop()] for ever. *)
Definition setup (w : world) : control * list event :=
  let state := begin_result w in
  if state =? RADIOLIB_ERR_NONE then
    (At_loop loop_init,
     setup_power ++ setup_rf_switch w
       ++ [radio_begin; Serial_println "Radio init SUCCEEDED!"]
       ++ setup_join w)
  else
    (At_while_true,
     setup_power ++ setup_rf_switch w
       ++ [radio_begin; Serial_print "Radio init FAILED! Code: ";
           Serial_println_int state]).

(** ** loop() *)

Definition payload : list Z := [0x48; 0x65; 0x6C; 0x6C; 0x6F].

(** [sizeof(payload)] for an array of [uint8_t]. *)
Definition sizeof_payload : Z := Z.of_nat (List.length payload).

(** One pass of [loop()] (lines 134-153).  [millis()] is called once for
    the test and once more for the assignment. *)
Definition loop (w : world) (ls : loop_state) : loop_state * list event :=
  let k := millis_calls ls in
  if 60000 <? ulong_sub (millis_value w k) (lastSendTime ls) then
    let state := sendReceive_result w (send_calls ls) in
    ({| lastSendTime := millis_value w (S k);
        millis_calls := S (S k);
        send_calls := S (send_calls ls) |},
     [millis (clock w k); millis (clock w (S k));
      Serial_println_empty;
      Serial_print "Sending 'Hello' packet... ";
      sendReceive payload sizeof_payload]
     ++ (if state =? RADIOLIB_ERR_NONE then [Serial_println "Packet sent!"]
         else [Serial_print "Send FAILED. Error code: ";
               Serial_println_int state]))
  else
    ({| lastSendTime := lastSendTime ls;
        millis_calls := S k;
        send_calls := send_calls ls |},
     [millis (clock w k)]).

(** ** The machine *)

Definition step (w : world) (c : control) : control * list event :=
  match c with
  | At_setup => (At_while_Serial 0, setup_serial_begin)
  | At_while_Serial k =>
      if serial_ready w k then
        let (c', tr) := setup w in (c', Serial_ready true :: tr)
      else (At_while_Serial (S k), setup_wait_once)
  | At_while_true => (At_while_true, [])
  | At_loop ls => let (ls', tr) := loop w ls in (At_loop ls', tr)
  end.

(** [n] steps from power-on, with everything observed so far. *)
Fixpoint run (w : world) (n : nat) : control * list event :=
  match n with
  | O => (At_setup, [])
  | S n' =>
      let (c, tr) := run w n' in
      let (c', ev) := step w c in (c', tr ++ ev)
  end.

Definition state_at (w : world) (n : nat) : control := fst (run w n).
Definition trace (w : world) (n : nat) : list event := snd (run w n).

(** ** Reading a trace *)

(** Everything observed while the serial port has answered [false] [k]
    times. *)
Definition waiting (k : nat) : list event :=
  setup_serial_begin ++ List.concat (repeat setup_wait_once k).

(** [Serial] first answers [true] at its k-th evaluation. *)
Definition first_ready (w : world) (k : nat) : Prop :=
  serial_ready w k = true /\ forall j, (j < k)%nat -> serial_ready w j = false.

(** Every occurrence of a [Q] event has a [P] event strictly before it. *)
Definition precedes (P Q : event -> Prop) (tr : list event) : Prop :=
  forall l1 e l2, tr = l1 ++ e :: l2 -> Q e -> Exists P l1.

Definition is_sendReceive (e : event) : Prop :=
  match e with sendReceive _ _ => True | _ => False end.

Definition is_beginOTAA (e : event) : Prop :=
  match e with beginOTAA _ _ _ _ => True | _ => False end.

(** Version forcing, activation and uplink: what a failed radio
    initialisation must keep from happening. *)
Definition join_or_send (e : event) : Prop :=
  match e with
  | setMacVersion _ | beginOTAA _ _ _ _ | activateOTAA | sendReceive _ _ => True
  | _ => False
  end.

(** Calls that touch the pins, the bus or the radio driver. *)
Definition bringup_event (e : event) : Prop :=
  match e with
  | pinMode _ _ | digitalWrite _ _ | SPI_begin _ _ _ _ | setDio2AsRfSwitch _
  | radio_begin | setMacVersion _ | beginOTAA _ _ _ _ | activateOTAA
  | sendReceive _ _ => True
  | _ => False
  end.

(** What can be observed before the serial port is ready. *)
Definition wait_event (e : event) : Prop :=
  match e with
  | Serial_begin _ | Serial_ready false | delay _ => True
  | _ => False
  end.

(** What a pass of [loop()] can do. *)
Definition loop_event (e : event) : Prop :=
  match e with
  | millis _ | Serial_print _ | Serial_println _ | Serial_println_int _
  | Serial_println_empty => True
  | sendReceive p l => p = payload /\ l = sizeof_payload
  | _ => False
  end.

(** The clock time of each uplink: the time of the last [millis()] call
    made before the [sendReceive], which is the one stored in
    [lastSendTime]. *)
Fixpoint send_times (last : Z) (tr : list event) : list Z :=
  match tr with
  | [] => []
  | millis t :: tr' => send_times t tr'
  | sendReceive _ _ :: tr' => last :: send_times last tr'
  | _ :: tr' => send_times last tr'
  end.

Fixpoint last_millis (last : Z) (tr : list event) : Z :=
  match tr with
  | [] => last
  | millis t :: tr' => last_millis t tr'
  | _ :: tr' => last_millis last tr'
  end.

(** Number of [sendReceive] calls in a trace. *)
Fixpoint count_sends (tr : list event) : nat :=
  match tr with
  | [] => 0
  | sendReceive _ _ :: tr' => S (count_sends tr')
  | _ :: tr' => count_sends tr'
  end.

(** Any two uplinks are more than [interval] apart. *)
Definition spaced (interval : Z) (times : list Z) : Prop :=
  StronglySorted (fun a b => interval < b - a) times.

(** The clock never runs backwards. *)
Definition monotonic (w : world) : Prop :=
  forall i j, (i <= j)%nat -> clock w i <= clock w j.

(** A clock reading taken after the first interval since boot. *)
Definition reading_after_first_interval (e : event) : Prop :=
  match e with millis t => 60000 < t | _ => False end.

(** What [lastSendTime] knows about the uplinks made so far: it holds the
    wrapped reading of a [millis()] call that is not earlier than any of
    them. *)
Definition stamp_covers (w : world) (ls : loop_state) (times : list Z) : Prop :=
  times = [] \/
  exists g, (g < millis_calls ls)%nat /\
            lastSendTime ls = millis_value w g /\
            Forall (fun t => t <= clock w g) times.

Definition uplink_inv (w : world) (c : control) (tr : list event) : Prop :=
  match c with
  | At_loop ls =>
      spaced 60000 (send_times 0 tr) /\ stamp_covers w ls (send_times 0 tr)
  | _ => send_times 0 tr = []
  end.

(** Before the first uplink [lastSendTime] still holds its initial 0. *)
Definition first_uplink_inv (c : control) (tr : list event) : Prop :=
  precedes reading_after_first_interval is_sendReceive tr /\
  match c with
  | At_loop ls => lastSendTime ls = 0 \/ Exists reading_after_first_interval tr
  | _ => True
  end.

(** The whole trace, by control point. *)
Definition shape (w : world) (c : control) (tr : list event) : Prop :=
  match c with
  | At_setup => tr = []
  | At_while_Serial k =>
      tr = waiting k /\ forall j, (j < k)%nat -> serial_ready w j = false
  | At_while_true =>
      exists k, first_ready w k /\ begin_result w <> RADIOLIB_ERR_NONE /\
        tr = waiting k ++ Serial_ready true :: snd (setup w)
  | At_loop _ =>
      exists k loops, first_ready w k /\ begin_result w = RADIOLIB_ERR_NONE /\
        Forall loop_event loops /\
        tr = waiting k ++ (Serial_ready true :: snd (setup w)) ++ loops
  end.

(** ** The objects built before [setup()] (lines 44-48) *)

(** The four pins a [Module] is built from, named as the sketch's
    comments name them. *)
Record Module := {
  module_cs : Z;
  module_dio1 : Z;
  module_rst : Z;
  module_busy : Z
}.

(** [SX1262 radio = new Module(LORA_CS_PIN, LORA_DIO1_PIN, LORA_RST_PIN,
    LORA_BUSY_PIN);] *)
Definition radio : Module :=
  {| module_cs := LORA_CS_PIN;
     module_dio1 := LORA_DIO1_PIN;
     module_rst := LORA_RST_PIN;
     module_busy := LORA_BUSY_PIN |}.

(** ** The uplink report (lines 147-151) *)

Definition report_send (state : Z) : list event :=
  if state =? RADIOLIB_ERR_NONE then [Serial_println "Packet sent!"]
  else [Serial_print "Send FAILED. Error code: "; Serial_println_int state].

(** ** More ways of reading a trace *)

(** The calls [setup()] makes to the serial port, the pins, the bus and
    the driver, in the order of the source. *)
Definition setup_calls : list event :=
  [Serial_begin 115200;
   pinMode LORA_RF_SW_VDD_PIN OUTPUT;
   digitalWrite LORA_RF_SW_VDD_PIN HIGH;
   SPI_begin LORA_SCK_PIN LORA_MISO_PIN LORA_MOSI_PIN LORA_CS_PIN;
   setDio2AsRfSwitch true;
   radio_begin;
   setMacVersion LORAWAN_VERSION_1_0_3;
   beginOTAA joinEUI devEUI nwkKey appKey;
   activateOTAA].

Definition is_setup_call (e : event) : bool :=
  match e with
  | Serial_begin _ | pinMode _ _ | digitalWrite _ _ | SPI_begin _ _ _ _
  | setDio2AsRfSwitch _ | radio_begin | setMacVersion _ | beginOTAA _ _ _ _
  | activateOTAA => true
  | _ => false
  end.

(** A line of the diagnostic stream. *)
Definition is_print (e : event) : bool :=
  match e with
  | Serial_print _ | Serial_println _ | Serial_println_int _
  | Serial_println_empty => true
  | _ => false
  end.

(** A trace without its diagnostic lines. *)
Definition calls (tr : list event) : list event :=
  filter (fun e => negb (is_print e)) tr.

(** Milliseconds spent in [delay]. *)
Fixpoint delay_total (tr : list event) : Z :=
  match tr with
  | [] => 0
  | delay ms :: tr' => ms + delay_total tr'
  | _ :: tr' => delay_total tr'
  end.

(** Two worlds that differ at most in what [setDio2AsRfSwitch],
    [activateOTAA] and [sendReceive] return. *)
Definition same_schedule_inputs (w w' : world) : Prop :=
  (forall k, serial_ready w k = serial_ready w' k) /\
  begin_result w = begin_result w' /\
  (forall k, clock w k = clock w' k).

(** [lastSendTime] holds the wrapped time of the latest uplink, or 0. *)
Definition stamp_inv (c : control) (tr : list event) : Prop :=
  match c with
  | At_loop ls => lastSendTime ls = last (send_times 0 tr) 0 mod ULONG_MOD
  | _ => send_times 0 tr = []
  end.

(** No uplink happens in the first interval after boot. *)
Definition late_inv (w : world) (c : control) (tr : list event) : Prop :=
  uplink_inv w c tr /\ stamp_inv c tr /\
  Forall (fun t => 60000 < t) (send_times 0 tr).

(** Each uplink is followed by the report of its own result, and the
    uplinks made so far are counted by [send_calls]. *)
Definition report_inv (w : world) (c : control) (tr : list event) : Prop :=
  (forall l1 p len l2, tr = l1 ++ sendReceive p len :: l2 ->
     exists l3, l2 = report_send (sendReceive_result w (count_sends l1)) ++ l3) /\
  count_sends tr = match c with At_loop ls => send_calls ls | _ => 0%nat end.

(** ** Sample worlds *)

(** The sentinels used to run the model; every theorem below holds for any
    assignment. *)
Definition radiolib_values : RadioLib :=
  {| RADIOLIB_ERR_NONE := 0; RADIOLIB_LORAWAN_NEW_SESSION := -1118 |}.

(** The serial monitor is opened at the third poll, the RF-switch call
    complains, the radio starts, the join is refused, and the clock is
    30 s short of wrapping when [loop()] first reads it. *)
Definition world_join_refused : world :=
  {| serial_ready := fun k => (2 <=? k)%nat;
     setDio2AsRfSwitch_result := -2;
     begin_result := 0;
     activateOTAA_result := -1116;
     clock := fun k => 4294937296 + 20000 * Z.of_nat k;
     sendReceive_result := fun _ => 0 |}.

(** Everything succeeds; [loop()] runs every 30 s from boot on. *)
Definition world_joined : world :=
  {| serial_ready := fun _ => true;
     setDio2AsRfSwitch_result := 0;
     begin_result := 0;
     activateOTAA_result := -1118;
     clock := fun k => 30000 * Z.of_nat k;
     sendReceive_result := fun _ => 0 |}.

(** The radio does not answer. *)
Definition world_radio_dead : world :=
  {| serial_ready := fun _ => true;
     setDio2AsRfSwitch_result := 0;
     begin_result := -2;
     activateOTAA_result := -1118;
     clock := fun k => Z.of_nat k;
     sendReceive_result := fun _ => 0 |}.

(** Nobody ever opens the serial monitor. *)
Definition world_no_monitor : world :=
  {| serial_ready := fun _ => false;
     setDio2AsRfSwitch_result := 0;
     begin_result := 0;
     activateOTAA_result := -1118;
     clock := fun k => Z.of_nat k;
     sendReceive_result := fun _ => 0 |}.

(** The same as [world_join_refused] for the serial port, the radio and
    the clock; every other call succeeds. *)
Definition world_join_accepted : world :=
  {| serial_ready := fun k => (2 <=? k)%nat;
     setDio2AsRfSwitch_result := 0;
     begin_result := 0;
     activateOTAA_result := -1118;
     clock := fun k => 4294937296 + 20000 * Z.of_nat k;
     sendReceive_result := fun _ => -1101 |}.

(** Everything succeeds, but [setup()] is over only 75 s after boot. *)
Definition world_late_monitor : world :=
  {| serial_ready := fun _ => true;
     setDio2AsRfSwitch_result := 0;
     begin_result := 0;
     activateOTAA_result := -1118;
     clock := fun k => 75000 + Z.of_nat k;
     sendReceive_result := fun _ => 0 |}.

(** * Properties *)

(** ** Executions *)

Lemma run_step (w : world) (n : nat) :
  run w (S n) = (fst (step w (state_at w n)), trace w n ++ snd (step w (state_at w n))).
Proof.
  unfold state_at, trace. simpl.
  destruct (run w n) as [c tr]. simpl.
  destruct (step w c) as [c' ev]. reflexivity.
Qed.

(** A property of control point and trace that holds at power-on and is
    kept by every step holds along the whole execution. *)
Lemma run_invariant (w : world) (I : control -> list event -> Prop) :
  I At_setup [] ->
  (forall c tr, I c tr -> I (fst (step w c)) (tr ++ snd (step w c))) ->
  forall n, I (state_at w n) (trace w n).
Proof.
  intros H0 Hstep n. induction n as [|n IH].
  - exact H0.
  - unfold state_at, trace in *. rewrite run_step. simpl.
    apply Hstep. exact IH.
Qed.

Lemma run_add (w : world) (n m : nat) :
  exists ev, trace w (n + m) = trace w n ++ ev.
Proof.
  induction m as [|m [ev IH]].
  - exists []. rewrite Nat.add_0_r, app_nil_r. reflexivity.
  - exists (ev ++ snd (step w (state_at w (n + m)))).
    rewrite Nat.add_succ_r. unfold trace at 1. rewrite run_step. simpl.
    rewrite IH, app_assoc. reflexivity.
Qed.

Lemma waiting_S (k : nat) : waiting (S k) = waiting k ++ setup_wait_once.
Proof.
  unfold waiting. rewrite <- app_assoc. f_equal.
  induction k as [|k IH]; simpl in *.
  - reflexivity.
  - rewrite IH. reflexivity.
Qed.

Lemma waiting_wait_events (k : nat) : Forall wait_event (waiting k).
Proof.
  induction k as [|k IH].
  - repeat constructor.
  - rewrite waiting_S. apply Forall_app. split; [exact IH|].
    repeat constructor.
Qed.

(** While [Serial] answers [false] the sketch only polls it. *)
Lemma run_waiting (w : world) (k : nat) :
  (forall j, (j < k)%nat -> serial_ready w j = false) ->
  run w (S k) = (At_while_Serial k, waiting k).
Proof.
  induction k as [|k IH]; intros Hk.
  - reflexivity.
  - rewrite run_step. unfold state_at, trace.
    rewrite IH by (intros j Hj; apply Hk; lia).
    simpl fst. simpl snd. cbn [step].
    rewrite (Hk k) by lia. simpl. rewrite waiting_S. reflexivity.
Qed.

(** Once it answers [true] the rest of [setup()] runs in one go. *)
Lemma run_setup (w : world) (k : nat) :
  first_ready w k ->
  run w (S (S k)) =
    (fst (setup w), waiting k ++ Serial_ready true :: snd (setup w)).
Proof.
  intros [Hr Hk]. rewrite run_step. unfold state_at, trace.
  rewrite (run_waiting w k Hk). simpl fst. simpl snd. cbn [step].
  rewrite Hr. destruct (setup w) as [c tr]. reflexivity.
Qed.

(** The events of one pass of [loop()]. *)
Lemma loop_loop_events (w : world) (ls : loop_state) :
  Forall loop_event (snd (loop w ls)).
Proof.
  unfold loop.
  destruct (60000 <? _); simpl; [|repeat constructor].
  destruct (_ =? _); repeat constructor.
Qed.

Lemma run_shape (w : world) (n : nat) : shape w (state_at w n) (trace w n).
Proof.
  apply run_invariant; [reflexivity|].
  intros [|k| |ls] tr H; simpl in H.
  - subst tr. simpl. split; [reflexivity | intros j Hj; lia].
  - destruct H as [-> Hk]. cbn [step].
    destruct (serial_ready w k) eqn:Hr.
    + assert (Hf : first_ready w k) by (split; assumption).
      unfold setup. destruct (begin_result w =? RADIOLIB_ERR_NONE) eqn:Hb.
      * apply Z.eqb_eq in Hb. simpl. exists k, []. rewrite app_nil_r.
        unfold setup. rewrite (proj2 (Z.eqb_eq _ _) Hb).
        repeat split; try assumption; try apply Hf. constructor.
      * apply Z.eqb_neq in Hb. simpl. exists k.
        unfold setup. rewrite (proj2 (Z.eqb_neq _ _) Hb).
        repeat split; try assumption; apply Hf.
    + simpl. split; [symmetry; apply waiting_S|].
      intros j Hj. destruct (Nat.eq_dec j k) as [->|]; [assumption|].
      apply Hk. lia.
  - simpl. rewrite app_nil_r. exact H.
  - destruct H as (k & loops & Hf & Hb & Hl & ->). cbn [step].
    pose proof (loop_loop_events w ls) as Hev.
    destruct (loop w ls) as [ls' ev]. cbn [fst snd] in *.
    exists k, (loops ++ ev). repeat split; try assumption; try apply Hf.
    + apply Forall_app. split; assumption.
    + unfold waiting. simpl. rewrite <- !app_assoc. simpl.
      rewrite <- ?app_assoc. reflexivity.
Qed.

(** ** Order of calls *)

Lemma precedes_nil (P Q : event -> Prop) : precedes P Q [].
Proof.
  intros l1 e l2 H. destruct l1; discriminate H.
Qed.

Lemma precedes_cons (P Q : event -> Prop) (x : event) (l : list event) :
  ~ Q x -> P x \/ precedes P Q l -> precedes P Q (x :: l).
Proof.
  intros Hx Hl l1 e l2 H Hq. destruct l1 as [|y l1]; simpl in H.
  - injection H as -> _. contradiction.
  - injection H as -> H. destruct Hl as [Hp|Hl].
    + left. exact Hp.
    + right. exact (Hl _ _ _ H Hq).
Qed.

Lemma precedes_quiet (P Q : event -> Prop) (l : list event) :
  Forall (fun e => ~ Q e) l -> precedes P Q l.
Proof.
  intros Hl l1 e l2 -> Hq. rewrite Forall_app in Hl.
  destruct Hl as [_ Hl]. inversion Hl; contradiction.
Qed.

Lemma precedes_app (P Q : event -> Prop) (a b : list event) :
  precedes P Q a -> Exists P a \/ precedes P Q b -> precedes P Q (a ++ b).
Proof.
  intros Ha Hb l1 e l2 H Hq.
  apply app_eq_app in H. destruct H as [l [[-> H]|[-> H]]].
  - destruct l as [|y l]; simpl in H.
    + rewrite app_nil_r in *. subst b.
      destruct Hb as [Hb|Hb]; [exact Hb|].
      specialize (Hb [] e l2 eq_refl Hq). inversion Hb.
    + injection H as <- ->. exact (Ha _ _ _ eq_refl Hq).
  - apply Exists_app.
    destruct Hb as [Hb|Hb]; [left; exact Hb|right; exact (Hb _ _ _ H Hq)].
Qed.

Ltac precedes_list :=
  repeat first
    [ apply precedes_nil
    | apply precedes_cons;
      [ first [ intro; discriminate | simpl; tauto ]
      | first [ left; first [ reflexivity | exact I ] | right ] ] ].

Ltac setup_cases w :=
  unfold setup, setup_rf_switch, setup_join, join_outcome_of, report_join;
  destruct (begin_result w =? RADIOLIB_ERR_NONE);
  destruct (setDio2AsRfSwitch_result w =? RADIOLIB_ERR_NONE);
  destruct (activateOTAA_result w =? RADIOLIB_LORAWAN_NEW_SESSION);
  cbn [fst snd app setup_power].

(** A call that happens neither while waiting for the serial port nor in
    [loop()] is ordered along the whole execution as it is in [setup()]. *)
Lemma trace_precedes (P Q : event -> Prop) (w : world) :
  (forall e, wait_event e -> ~ Q e) ->
  Exists P (Serial_ready true :: snd (setup w)) \/
    (forall e, loop_event e -> ~ Q e) ->
  precedes P Q (Serial_ready true :: snd (setup w)) ->
  forall n, precedes P Q (trace w n).
Proof.
  intros Hw Hl Hs n.
  assert (Hwait : forall k, precedes P Q (waiting k)).
  { intros k. apply precedes_quiet.
    eapply Forall_impl; [apply Hw | apply waiting_wait_events]. }
  pose proof (run_shape w n) as H.
  destruct (state_at w n) as [|k| |ls]; cbn [shape] in H.
  - rewrite H. apply precedes_nil.
  - destruct H as [-> _]. apply Hwait.
  - destruct H as (k & _ & _ & ->).
    apply precedes_app; [apply Hwait | right; exact Hs].
  - destruct H as (k & loops & _ & _ & Hloops & ->).
    apply precedes_app; [apply Hwait | right].
    apply precedes_app; [exact Hs|].
    destruct Hl as [Hl|Hl]; [left; exact Hl | right].
    apply precedes_quiet. eapply Forall_impl; [apply Hl | exact Hloops].
Qed.

(** What holds of every event of the three phases holds of the trace. *)
Lemma trace_Forall (R : event -> Prop) (w : world) :
  (forall e, wait_event e -> R e) ->
  (forall e, loop_event e -> R e) ->
  Forall R (Serial_ready true :: snd (setup w)) ->
  forall n, Forall R (trace w n).
Proof.
  intros Hw Hl Hs n.
  assert (Hwait : forall k, Forall R (waiting k)).
  { intros k. eapply Forall_impl; [apply Hw | apply waiting_wait_events]. }
  pose proof (run_shape w n) as H.
  destruct (state_at w n) as [|k| |ls]; cbn [shape] in H.
  - rewrite H. constructor.
  - destruct H as [-> _]. apply Hwait.
  - destruct H as (k & _ & _ & ->).
    apply Forall_app. split; [apply Hwait | exact Hs].
  - destruct H as (k & loops & _ & _ & Hloops & ->).
    apply Forall_app. split; [apply Hwait|].
    apply Forall_app. split; [exact Hs|].
    eapply Forall_impl; [apply Hl | exact Hloops].
Qed.

(** C4: once [Serial] has answered [true], every execution does call
    [pinMode(14, OUTPUT)], then [digitalWrite(14, HIGH)], then
    [radio.begin()].  Along every execution, each [radio.begin()] comes
    after a [digitalWrite(14, HIGH)], each of those comes after a
    [pinMode(14, OUTPUT)], and no pin is ever configured or driven
    otherwise: the RF-switch supply pin is an output at the active level
    strictly before the radio driver is initialised. *)
Theorem rf_switch_powered_before_radio_begin (w : world) (n : nat) :
  precedes (eq (pinMode 14 OUTPUT)) (eq (digitalWrite 14 HIGH)) (trace w n) /\
  precedes (eq (digitalWrite 14 HIGH)) (eq radio_begin) (trace w n) /\
  Forall (fun e => match e with
                   | pinMode p m => p = 14 /\ m = OUTPUT
                   | digitalWrite p l => p = 14 /\ l = HIGH
                   | _ => True
                   end) (trace w n) /\
  (forall k m, first_ready w k ->
     exists l1 l2 l3 l4,
       trace w (S (S k) + m) =
         l1 ++ pinMode 14 OUTPUT :: l2 ++ digitalWrite 14 HIGH
            :: l3 ++ radio_begin :: l4).
Proof.
  split; [|split; [|split]].
  - apply trace_precedes.
    + intros [] He Hq; try discriminate Hq; exact He.
    + right. intros [] He Hq; try discriminate Hq; exact He.
    + setup_cases w; precedes_list.
  - apply trace_precedes.
    + intros [] He Hq; try discriminate Hq; exact He.
    + right. intros [] He Hq; try discriminate Hq; exact He.
    + setup_cases w; precedes_list.
  - apply trace_Forall.
    + intros [] He; try exact I; destruct He.
    + intros [] He; try exact I; destruct He.
    + setup_cases w; repeat constructor.
  - intros k m Hk. destruct (run_add w (S (S k)) m) as [ev ->].
    unfold trace. rewrite (run_setup w k Hk). cbn [snd].
    exists (waiting k
            ++ [Serial_ready true;
                Serial_println "--------------------------------";
                Serial_println "Heltec V3 Stable LoRaWAN (RadioLib)";
                Serial_println "--------------------------------";
                Serial_print "Powering RF Switch (Pin 14)... "]).
    exists [].
    exists ([Serial_println "OK"; Serial_print "Configuring SPI... ";
             SPI_begin LORA_SCK_PIN LORA_MISO_PIN LORA_MOSI_PIN LORA_CS_PIN;
             Serial_println "OK"] ++ setup_rf_switch w).
    unfold setup. destruct (begin_result w =? RADIOLIB_ERR_NONE); cbn [snd].
    + exists (([Serial_println "Radio init SUCCEEDED!"] ++ setup_join w) ++ ev).
      unfold setup_power. rewrite <- !app_assoc. cbn [app].
      rewrite <- ?app_assoc. reflexivity.
    + exists ([Serial_print "Radio init FAILED! Code: ";
               Serial_println_int (begin_result w)] ++ ev).
      unfold setup_power. rewrite <- !app_assoc. cbn [app].
      rewrite <- ?app_assoc. reflexivity.
Qed.

(** C5: once [Serial] has answered [true] and [radio.begin()] has
    succeeded, every execution does call
    [setMacVersion(LORAWAN_VERSION_1_0_3)], then [beginOTAA] with the
    sketch's identity, then [activateOTAA].  Along every execution, each
    [beginOTAA] and each [activateOTAA] comes after
    [setMacVersion(LORAWAN_VERSION_1_0_3)], and the version is never set
    to anything else. *)
Theorem mac_version_forced_before_activation (w : world) (n : nat) :
  precedes (eq (setMacVersion LORAWAN_VERSION_1_0_3)) is_beginOTAA (trace w n) /\
  precedes (eq (setMacVersion LORAWAN_VERSION_1_0_3)) (eq activateOTAA) (trace w n) /\
  Forall (fun e => match e with
                   | setMacVersion v => v = LORAWAN_VERSION_1_0_3
                   | _ => True
                   end) (trace w n) /\
  (forall k m, first_ready w k -> begin_result w = RADIOLIB_ERR_NONE ->
     exists l1 l2 l3 l4,
       trace w (S (S k) + m) =
         l1 ++ setMacVersion LORAWAN_VERSION_1_0_3
            :: l2 ++ beginOTAA joinEUI devEUI nwkKey appKey
            :: l3 ++ activateOTAA :: l4).
Proof.
  split; [|split; [|split]].
  - apply trace_precedes.
    + intros [] He Hq; try destruct Hq; exact He.
    + right. intros [] He Hq; try destruct Hq; exact He.
    + setup_cases w; precedes_list.
  - apply trace_precedes.
    + intros [] He Hq; try discriminate Hq; exact He.
    + right. intros [] He Hq; try discriminate Hq; exact He.
    + setup_cases w; precedes_list.
  - apply trace_Forall.
    + intros [] He; try exact I; destruct He.
    + intros [] He; try exact I; destruct He.
    + setup_cases w; repeat constructor.
  - intros k m Hk Hb. destruct (run_add w (S (S k)) m) as [ev ->].
    unfold trace. rewrite (run_setup w k Hk).
    apply Z.eqb_eq in Hb. unfold setup. rewrite Hb. cbn [snd].
    exists (waiting k
            ++ (Serial_ready true :: setup_power) ++ setup_rf_switch w
            ++ [radio_begin; Serial_println "Radio init SUCCEEDED!";
                Serial_println "Forcing LoRaWAN version 1.0.3..."]).
    exists [Serial_println "Configuring OTAA..."].
    exists [Serial_println "Attempting to join TTN (JOIN)..."].
    exists (report_join (join_outcome_of (activateOTAA_result w)) ++ ev).
    unfold setup_join. rewrite <- !app_assoc. cbn [app].
    rewrite <- !app_assoc. reflexivity.
Qed.

(** C8: every [sendReceive] of every execution is given the five bytes
    0x48 0x65 0x6C 0x6C 0x6F and the length 5. *)
Theorem uplink_payload_fixed (w : world) (n : nat) :
  Forall (fun e => match e with
                   | sendReceive p l =>
                       p = [0x48; 0x65; 0x6C; 0x6C; 0x6F] /\ l = 5
                   | _ => True
                   end) (trace w n).
Proof.
  apply trace_Forall.
  - intros [] He; try exact I; destruct He.
  - intros [] He; try exact I. destruct He as [-> ->]. split; reflexivity.
  - setup_cases w; repeat constructor.
Qed.

(** C9: along every execution each call that touches the pins, the bus or
    the radio driver comes after an evaluation of [Serial] that answered
    [true]; and when [Serial] never answers [true] the sketch stays in the
    polling loop of line 76 for ever, so that none of those calls is ever
    made. *)
Theorem serial_gates_bringup (w : world) :
  (forall n, precedes (eq (Serial_ready true)) bringup_event (trace w n)) /\
  ((forall k, serial_ready w k = false) ->
   forall n, state_at w (S n) = At_while_Serial n /\
             trace w (S n) = waiting n /\
             Forall (fun e => ~ bringup_event e) (trace w (S n))).
Proof.
  split.
  - apply trace_precedes.
    + intros [] He Hq; try destruct Hq; exact He.
    + left. left. reflexivity.
    + apply precedes_cons; [intros []|]. left. reflexivity.
  - intros Hnever n. unfold state_at, trace.
    rewrite run_waiting by (intros j _; apply Hnever).
    repeat split. cbn [snd].
    eapply Forall_impl; [|apply waiting_wait_events].
    intros [] He Hq; try destruct Hq; exact He.
Qed.

Lemma setup_radio_failed (w : world) :
  begin_result w <> RADIOLIB_ERR_NONE ->
  setup w =
    (At_while_true,
     setup_power ++ setup_rf_switch w
       ++ [radio_begin; Serial_print "Radio init FAILED! Code: ";
           Serial_println_int (begin_result w)]).
Proof.
  intros H. apply Z.eqb_neq in H. unfold setup. rewrite H. reflexivity.
Qed.

Lemma setup_radio_ok (w : world) :
  begin_result w = RADIOLIB_ERR_NONE ->
  setup w =
    (At_loop loop_init,
     setup_power ++ setup_rf_switch w
       ++ [radio_begin; Serial_println "Radio init SUCCEEDED!"]
       ++ setup_join w).
Proof.
  intros H. apply Z.eqb_eq in H. unfold setup. rewrite H. reflexivity.
Qed.

(** The idle loop of line 110 is never left and does nothing. *)
Lemma run_halted (w : world) (n m : nat) :
  state_at w n = At_while_true ->
  run w (n + m) = (At_while_true, trace w n).
Proof.
  intros H. induction m as [|m IH].
  - rewrite Nat.add_0_r. unfold state_at, trace in *.
    destruct (run w n). simpl in *. subst. reflexivity.
  - rewrite Nat.add_succ_r, run_step. unfold state_at, trace.
    rewrite IH. simpl. rewrite app_nil_r. reflexivity.
Qed.

(** C6: when [radio.begin()] does not return [RADIOLIB_ERR_NONE], no
    execution ever sets the MAC version, configures or starts the
    activation, or sends; and once [radio.begin()] has been called the
    sketch sits in [while (true)] for ever, observing nothing more. *)
Theorem radio_init_failure_halts (w : world) :
  begin_result w <> RADIOLIB_ERR_NONE ->
  (forall n, Forall (fun e => ~ join_or_send e) (trace w n)) /\
  (forall k, first_ready w k ->
     In radio_begin (trace w (S (S k))) /\
     forall m, run w (S (S k) + m) = (At_while_true, trace w (S (S k)))).
Proof.
  intros Hb. split.
  - intros n. pose proof (run_shape w n) as H.
    destruct (state_at w n) as [|k| |ls]; cbn [shape] in H.
    + rewrite H. constructor.
    + destruct H as [-> _].
      eapply Forall_impl; [|apply waiting_wait_events].
      intros [] He Hq; try destruct Hq; exact He.
    + destruct H as (k & _ & _ & ->). apply Forall_app. split.
      * eapply Forall_impl; [|apply waiting_wait_events].
        intros [] He Hq; try destruct Hq; exact He.
      * rewrite (setup_radio_failed w Hb). cbn [snd].
        unfold setup_rf_switch.
        destruct (setDio2AsRfSwitch_result w =? RADIOLIB_ERR_NONE);
          repeat constructor; intros [].
    + destruct H as (k & loops & _ & Heq & _). contradiction.
  - intros k Hk.
    assert (Hrun := run_setup w k Hk).
    rewrite (setup_radio_failed w Hb) in Hrun. split.
    + unfold trace. rewrite Hrun. cbn [snd].
      apply in_or_app. right. right.
      apply in_or_app. right. apply in_or_app. right. left. reflexivity.
    + intros m. apply run_halted. unfold state_at. rewrite Hrun. reflexivity.
Qed.

(** C7: whatever error code [setDio2AsRfSwitch] returns, the code is
    printed and the very next driver call is [radio.begin()]; when that
    one succeeds the activation is attempted and [setup()] returns to the
    main loop, exactly as if the RF-switch call had succeeded. *)
Theorem rf_switch_failure_is_not_fatal (w : world) (k : nat) :
  first_ready w k ->
  setDio2AsRfSwitch_result w <> RADIOLIB_ERR_NONE ->
  exists l1 l2,
    trace w (S (S k)) =
      l1 ++ [setDio2AsRfSwitch true;
             Serial_print "setDio2AsRfSwitch failed! Code: ";
             Serial_println_int (setDio2AsRfSwitch_result w);
             radio_begin] ++ l2 /\
    (begin_result w = RADIOLIB_ERR_NONE ->
     In activateOTAA l2 /\ state_at w (S (S k)) = At_loop loop_init).
Proof.
  intros Hk Hd. apply Z.eqb_neq in Hd.
  unfold state_at, trace. rewrite (run_setup w k Hk).
  exists (waiting k ++ Serial_ready true :: setup_power
            ++ [Serial_print "Initializing SX1262 radio... "]).
  destruct (Z.eq_dec (begin_result w) RADIOLIB_ERR_NONE) as [Hb|Hb].
  - exists ([Serial_println "Radio init SUCCEEDED!"] ++ setup_join w).
    rewrite (setup_radio_ok w Hb). unfold setup_rf_switch. rewrite Hd.
    cbn [fst snd]. split.
    + rewrite <- !app_assoc. reflexivity.
    + intros _. split; [|reflexivity].
      unfold setup_join. simpl. tauto.
  - exists [Serial_print "Radio init FAILED! Code: ";
            Serial_println_int (begin_result w)].
    rewrite (setup_radio_failed w Hb). unfold setup_rf_switch. rewrite Hd.
    cbn [fst snd]. split.
    + rewrite <- !app_assoc. reflexivity.
    + intros Hb'. contradiction.
Qed.

(** C3: when [setup()] reaches the activation, the last thing observed is
    [activateOTAA] followed by its report.  For the new-session sentinel
    the outcome is [Joined] and the success line is printed; for any other
    code the outcome is [JoinFailed] with that very code, and that very
    code is what is printed. *)
Theorem join_result_reported_unchanged (w : world) (k : nat) :
  first_ready w k ->
  begin_result w = RADIOLIB_ERR_NONE ->
  let code := activateOTAA_result w in
  (code = RADIOLIB_LORAWAN_NEW_SESSION ->
   join_outcome_of code = Joined /\
   exists pre, trace w (S (S k)) =
     pre ++ [activateOTAA; Serial_println "!!! JOINED SUCCESSFULLY !!!"]) /\
  (code <> RADIOLIB_LORAWAN_NEW_SESSION ->
   join_outcome_of code = JoinFailed code /\
   exists pre, trace w (S (S k)) =
     pre ++ [activateOTAA;
             Serial_print "Join FAILED. Error code: ";
             Serial_println_int code;
             Serial_println "Check Keys (nwkKey/appKey must be identical) and TTN settings (must be 1.0.3)."]).
Proof.
  intros Hk Hb code.
  unfold trace. rewrite (run_setup w k Hk), (setup_radio_ok w Hb).
  cbn [snd]. unfold setup_join, join_outcome_of. fold code.
  set (front := waiting k ++ Serial_ready true :: setup_power
                  ++ setup_rf_switch w
                  ++ [radio_begin; Serial_println "Radio init SUCCEEDED!";
                      Serial_println "Forcing LoRaWAN version 1.0.3...";
                      setMacVersion LORAWAN_VERSION_1_0_3;
                      Serial_println "Configuring OTAA...";
                      beginOTAA joinEUI devEUI nwkKey appKey;
                      Serial_println "Attempting to join TTN (JOIN)..."]).
  split; intros Hc.
  - apply Z.eqb_eq in Hc. rewrite Hc. split; [reflexivity|].
    exists front. unfold front. cbn [report_join].
    rewrite <- !app_assoc. cbn [app]. rewrite <- !app_assoc. reflexivity.
  - apply Z.eqb_neq in Hc. rewrite Hc. split; [reflexivity|].
    exists front. unfold front. cbn [report_join].
    rewrite <- !app_assoc. cbn [app]. rewrite <- !app_assoc. reflexivity.
Qed.

(** Once in the main loop, always in the main loop, doing loop things. *)
Lemma run_looping (w : world) (n m : nat) (ls : loop_state) :
  state_at w n = At_loop ls ->
  exists ls' loops,
    run w (n + m) = (At_loop ls', trace w n ++ loops) /\
    Forall loop_event loops.
Proof.
  intros H. induction m as [|m (ls' & loops & IH & Hl)].
  - exists ls, []. rewrite Nat.add_0_r, app_nil_r. split; [|constructor].
    unfold state_at, trace in *. destruct (run w n). simpl in *. subst.
    reflexivity.
  - rewrite Nat.add_succ_r, run_step. unfold state_at, trace. rewrite IH.
    cbn [fst snd step].
    pose proof (loop_loop_events w ls') as Hev.
    destruct (loop w ls') as [ls'' ev]. cbn [fst snd] in *.
    exists ls'', (loops ++ ev). rewrite app_assoc. split; [reflexivity|].
    apply Forall_app. split; assumption.
Qed.

(** A pass of [loop()] sends exactly when the elapsed-duration test
    holds, and then once. *)
Lemma loop_count_sends (w : world) (ls : loop_state) :
  count_sends (snd (loop w ls)) =
    if 60000 <? ulong_sub (millis_value w (millis_calls ls)) (lastSendTime ls)
    then 1%nat else 0%nat.
Proof.
  unfold loop. destruct (60000 <? _); [|reflexivity].
  cbn [snd]. destruct (_ =? _); reflexivity.
Qed.

Lemma loop_sends (w : world) (ls : loop_state) :
  60000 < ulong_sub (millis_value w (millis_calls ls)) (lastSendTime ls) ->
  In (sendReceive payload sizeof_payload) (snd (loop w ls)).
Proof.
  intros H. apply Z.ltb_lt in H. unfold loop. rewrite H. cbn [snd].
  simpl. tauto.
Qed.

(** C2, as the sketch has it: after a failed join [setup()] still returns
    and the sketch stays in the main loop for ever; nothing but clock
    readings, prints and uplinks is observed from then on, so the
    activation is never tried again; and every pass of [loop()] that finds
    more than 60000 ms elapsed calls [sendReceive] all the same. *)
Theorem join_failure_keeps_looping_and_sending (w : world) (k : nat) :
  first_ready w k ->
  begin_result w = RADIOLIB_ERR_NONE ->
  activateOTAA_result w <> RADIOLIB_LORAWAN_NEW_SESSION ->
  forall m, exists ls loops,
    run w (S (S k) + m) = (At_loop ls, trace w (S (S k)) ++ loops) /\
    Forall loop_event loops /\
    (60000 < ulong_sub (millis_value w (millis_calls ls)) (lastSendTime ls) ->
     exists ls',
       run w (S (S (S k)) + m) =
         (At_loop ls', trace w (S (S k) + m) ++ snd (loop w ls)) /\
       In (sendReceive payload sizeof_payload) (snd (loop w ls))).
Proof.
  intros Hk Hb _ m.
  assert (Hs : state_at w (S (S k)) = At_loop loop_init).
  { unfold state_at. rewrite (run_setup w k Hk), (setup_radio_ok w Hb).
    reflexivity. }
  destruct (run_looping w (S (S k)) m loop_init Hs) as (ls & loops & Hr & Hl).
  exists ls, loops. split; [exact Hr|]. split; [exact Hl|].
  intros Hdue. exists (fst (loop w ls)). split; [|apply loop_sends; exact Hdue].
  change (S (S (S k)) + m)%nat with (S (S (S k) + m)).
  assert (Hst : state_at w (S (S k) + m) = At_loop ls).
  { unfold state_at. rewrite Hr. reflexivity. }
  rewrite run_step, Hst. cbn [step]. destruct (loop w ls). reflexivity.
Qed.

(** ** The uplink schedule *)

Lemma send_times_app (last : Z) (a b : list event) :
  send_times last (a ++ b) =
    send_times last a ++ send_times (last_millis last a) b.
Proof.
  revert last. induction a as [|e a IH]; intros last; [reflexivity|].
  destruct e; simpl; rewrite ?IH; reflexivity.
Qed.

Lemma send_times_quiet (last : Z) (l : list event) :
  Forall (fun e => ~ is_sendReceive e) l -> send_times last l = [].
Proof.
  revert last. induction l as [|e l IH]; intros last H; [reflexivity|].
  inversion H as [|? ? He Hl]; subst.
  destruct e; simpl; try apply IH; try assumption.
  exfalso. apply He. exact I.
Qed.

Lemma setup_no_send (w : world) :
  Forall (fun e => ~ is_sendReceive e) (snd (setup w)).
Proof.
  setup_cases w; repeat constructor; intros [].
Qed.

Lemma loop_send_times (w : world) (ls : loop_state) (last : Z) :
  send_times last (snd (loop w ls)) =
    if 60000 <? ulong_sub (millis_value w (millis_calls ls)) (lastSendTime ls)
    then [clock w (S (millis_calls ls))] else [].
Proof.
  unfold loop. destruct (60000 <? _); [|reflexivity].
  cbn [snd]. destruct (_ =? _); reflexivity.
Qed.

(** The wrapped difference of two readings never exceeds the time that
    really went by between them. *)
Lemma elapsed_le (a b : Z) :
  b <= a -> ulong_sub (a mod ULONG_MOD) (b mod ULONG_MOD) <= a - b.
Proof.
  intros H. unfold ulong_sub. rewrite <- Zminus_mod.
  apply Z.mod_le; [lia | reflexivity].
Qed.

Lemma spaced_snoc (i : Z) (times : list Z) (x : Z) :
  spaced i times -> Forall (fun t => i < x - t) times ->
  spaced i (times ++ [x]).
Proof.
  unfold spaced. induction 1 as [|t times Hs IH Ht]; intros Hx; simpl.
  - repeat constructor.
  - inversion Hx as [|? ? Hxt Hxs]; subst. constructor.
    + apply IH. exact Hxs.
    + apply Forall_app. split; [exact Ht|]. repeat constructor. exact Hxt.
Qed.

Lemma uplink_inv_step (w : world) (c : control) (tr : list event) :
  monotonic w -> uplink_inv w c tr ->
  uplink_inv w (fst (step w c)) (tr ++ snd (step w c)).
Proof.
  intros Hmono H. destruct c as [|k| |ls]; cbn [uplink_inv] in H.
  - simpl. rewrite send_times_app, H. reflexivity.
  - cbn [step]. destruct (serial_ready w k).
    + pose proof (setup_no_send w) as Hq.
      assert (Hnil : send_times 0 (tr ++ Serial_ready true :: snd (setup w)) = []).
      { rewrite send_times_app, H. simpl. apply send_times_quiet. exact Hq. }
      destruct (setup w) as [c' ev]. cbn [fst snd] in *.
      destruct c'; cbn [uplink_inv]; try exact Hnil.
      rewrite Hnil. split; [constructor | left; reflexivity].
    + simpl. rewrite send_times_app, H. reflexivity.
  - simpl. rewrite app_nil_r. exact H.
  - destruct H as [Hsp Hcov]. cbn [step].
    pose proof (loop_send_times w ls (last_millis 0 tr)) as Hst.
    unfold loop in *.
    destruct (60000 <? ulong_sub (millis_value w (millis_calls ls)) (lastSendTime ls))
      eqn:Hdue; cbn [fst snd uplink_inv] in *;
      rewrite send_times_app, Hst.
    + apply Z.ltb_lt in Hdue.
      set (k := millis_calls ls) in *.
      assert (Hgap : Forall (fun t => 60000 < clock w (S k) - t)
                       (send_times 0 tr)).
      { destruct Hcov as [->|(g & Hg & Hlast & Hle)]; [constructor|].
        eapply Forall_impl; [|exact Hle]. intros t Ht. cbn beta in *.
        rewrite Hlast in Hdue.
        pose proof (elapsed_le (clock w k) (clock w g)
                      (Hmono g k ltac:(lia))) as He.
        pose proof (Hmono k (S k) ltac:(lia)).
        unfold millis_value in Hdue. lia. }
      split; [apply spaced_snoc; assumption|].
      right. exists (S k). cbn [millis_calls lastSendTime].
      split; [lia|]. split; [reflexivity|].
      apply Forall_app. split.
      * eapply Forall_impl; [|exact Hgap]. intros t Ht. cbn beta in *. lia.
      * repeat constructor. lia.
    + rewrite app_nil_r. split; [exact Hsp|].
      destruct Hcov as [Hnil|(g & Hg & Hlast & Hle)]; [left; exact Hnil|].
      right. exists g. cbn [millis_calls lastSendTime].
      repeat split; try assumption. lia.
Qed.

(** C1: a pass of [loop()] calls [sendReceive] exactly when the
    [unsigned long] difference between the current reading of [millis()]
    and [lastSendTime] exceeds 60000, and then once.  Under any clock that
    never runs backwards, wrapped or not, any two uplinks of an execution
    are therefore more than 60000 ms apart. *)
Theorem uplinks_spaced_by_interval (w : world) :
  monotonic w ->
  (forall ls,
     count_sends (snd (loop w ls)) =
       if 60000 <? (millis_value w (millis_calls ls) - lastSendTime ls)
                     mod 2 ^ 32
       then 1%nat else 0%nat) /\
  (forall n, spaced 60000 (send_times 0 (trace w n))).
Proof.
  intros Hmono. split.
  - intros ls. apply loop_count_sends.
  - intros n.
    assert (H : uplink_inv w (state_at w n) (trace w n)).
    { apply run_invariant; [reflexivity|].
      intros c tr. apply uplink_inv_step. exact Hmono. }
    destruct (state_at w n); cbn [uplink_inv] in H;
      try (rewrite H; constructor).
    apply H.
Qed.

Lemma ulong_sub_0 (w : world) (k : nat) :
  ulong_sub (millis_value w k) 0 = millis_value w k.
Proof.
  unfold ulong_sub, millis_value. rewrite Z.sub_0_r.
  apply Z.mod_mod. discriminate.
Qed.

Lemma first_uplink_inv_step (w : world) (c : control) (tr : list event) :
  (forall k, 0 <= clock w k) -> first_uplink_inv c tr ->
  first_uplink_inv (fst (step w c)) (tr ++ snd (step w c)).
Proof.
  intros Hpos [Hpre Hc]. destruct c as [|k| |ls].
  - split; [|exact I]. apply precedes_app; [exact Hpre | right].
    apply precedes_quiet. repeat constructor; intros [].
  - cbn [step]. destruct (serial_ready w k).
    + pose proof (setup_no_send w) as Hq.
      assert (Hp : precedes reading_after_first_interval is_sendReceive
                     (tr ++ Serial_ready true :: snd (setup w))).
      { apply precedes_app; [exact Hpre | right]. apply precedes_quiet.
        constructor; [intros [] | exact Hq]. }
      unfold setup in *.
      destruct (begin_result w =? RADIOLIB_ERR_NONE); cbn [fst snd] in *.
      * split; [exact Hp | left; reflexivity].
      * split; [exact Hp | exact I].
    + split; [|exact I]. apply precedes_app; [exact Hpre | right].
      apply precedes_quiet. repeat constructor; intros [].
  - simpl. rewrite app_nil_r. split; [exact Hpre | exact I].
  - cbn [step]. pose proof (loop_loop_events w ls) as Hev.
    unfold loop in *.
    destruct (60000 <? ulong_sub (millis_value w (millis_calls ls)) (lastSendTime ls))
      eqn:Hdue; cbn [fst snd lastSendTime first_uplink_inv] in *.
    + destruct Hc as [H0|Hseen].
      * rewrite H0, ulong_sub_0 in Hdue. apply Z.ltb_lt in Hdue.
        assert (Hlate : reading_after_first_interval
                          (millis (clock w (millis_calls ls)))).
        { simpl. unfold millis_value in Hdue.
          pose proof (Z.mod_le (clock w (millis_calls ls)) ULONG_MOD
                        (Hpos _) eq_refl). lia. }
        split.
        -- apply precedes_app; [exact Hpre | right].
           apply precedes_cons; [intros [] | left; exact Hlate].
        -- right. apply Exists_app. right. left. exact Hlate.
      * split.
        -- apply precedes_app; [exact Hpre | left; exact Hseen].
        -- right. apply Exists_app. left. exact Hseen.
    + split.
      * apply precedes_app; [exact Hpre | right].
        apply precedes_quiet. repeat constructor. intros [].
      * destruct Hc as [H0|Hseen]; [left; exact H0|].
        right. apply Exists_app. left. exact Hseen.
Qed.

(** C10, as the sketch has it: [setup()] hands over to the main loop with
    [lastSendTime] at 0 and without having sent anything; what the first
    pass of [loop()] adds is decided by the clock alone, and it sends
    exactly when [millis()] already reads more than 60000, which happens
    right after a successful join when [setup()] took that long; and
    along every execution each [sendReceive] comes after a clock reading
    taken more than 60000 ms after boot, so that nothing is sent during
    the first interval. *)
Theorem no_uplink_in_first_interval (w : world) :
  (forall k, 0 <= clock w k) ->
  (forall k, first_ready w k -> begin_result w = RADIOLIB_ERR_NONE ->
     state_at w (S (S k)) = At_loop loop_init /\
     lastSendTime loop_init = 0 /\
     Forall (fun e => ~ is_sendReceive e) (trace w (S (S k))) /\
     trace w (S (S (S k))) = trace w (S (S k)) ++ snd (loop w loop_init)) /\
  count_sends (snd (loop w loop_init)) =
    (if 60000 <? millis_value w 0 then 1%nat else 0%nat) /\
  (forall n, precedes reading_after_first_interval is_sendReceive (trace w n)).
Proof.
  intros Hpos. split; [|split].
  - intros k Hk Hb.
    assert (Hs : state_at w (S (S k)) = At_loop loop_init).
    { unfold state_at. rewrite (run_setup w k Hk), (setup_radio_ok w Hb).
      reflexivity. }
    split; [exact Hs|]. split; [reflexivity|]. split.
    + unfold trace. rewrite (run_setup w k Hk).
      pose proof (setup_no_send w) as Hq. cbn [snd].
      apply Forall_app. split.
      * eapply Forall_impl; [|apply waiting_wait_events].
        intros [] He Hsend; try destruct Hsend; exact He.
      * constructor; [intros [] | exact Hq].
    + unfold trace at 1. rewrite run_step, Hs. cbn [snd step].
      destruct (loop w loop_init). reflexivity.
  - rewrite loop_count_sends. cbn [millis_calls lastSendTime loop_init].
    rewrite ulong_sub_0. reflexivity.
  - intros n.
    assert (H : first_uplink_inv (state_at w n) (trace w n)).
    { apply run_invariant.
      - split; [apply precedes_nil | exact I].
      - intros c tr. apply first_uplink_inv_step. exact Hpos. }
    apply H.
Qed.

(** * Further properties of the sketch *)

(** ** Where an execution is *)

Lemma first_ready_unique (w : world) (k k' : nat) :
  first_ready w k -> first_ready w k' -> k = k'.
Proof.
  intros [Hr Hk] [Hr' Hk'].
  destruct (Nat.lt_trichotomy k k') as [H|[H|H]]; [|exact H|].
  - rewrite (Hk' k H) in Hr. discriminate Hr.
  - rewrite (Hk k' H) in Hr'. discriminate Hr'.
Qed.

(** From the end of the wait on, the trace is the wait, [setup()] and
    passes of [loop()]. *)
Lemma run_after_setup (w : world) (k m : nat) :
  first_ready w k ->
  exists c loops,
    run w (S (S k) + m) =
      (c, waiting k ++ (Serial_ready true :: snd (setup w)) ++ loops) /\
    Forall loop_event loops /\
    (begin_result w = RADIOLIB_ERR_NONE -> exists ls, c = At_loop ls) /\
    (begin_result w <> RADIOLIB_ERR_NONE -> c = At_while_true /\ loops = []).
Proof.
  intros Hk. pose proof (run_setup w k Hk) as Hrun.
  destruct (Z.eq_dec (begin_result w) RADIOLIB_ERR_NONE) as [Hb|Hb].
  - assert (Hs : state_at w (S (S k)) = At_loop loop_init).
    { unfold state_at. rewrite Hrun, (setup_radio_ok w Hb). reflexivity. }
    destruct (run_looping w (S (S k)) m loop_init Hs) as (ls & loops & Hr & Hl).
    exists (At_loop ls), loops. split; [|split; [exact Hl|split]].
    + rewrite Hr. unfold trace. rewrite Hrun. cbn [snd].
      rewrite <- app_assoc. reflexivity.
    + intros _. exists ls. reflexivity.
    + intros Hb'. contradiction.
  - assert (Hs : state_at w (S (S k)) = At_while_true).
    { unfold state_at. rewrite Hrun, (setup_radio_failed w Hb). reflexivity. }
    exists At_while_true, []. split; [|split; [constructor|split]].
    + rewrite (run_halted w (S (S k)) m Hs). unfold trace. rewrite Hrun.
      cbn [snd]. rewrite app_nil_r. reflexivity.
    + intros Hb'. contradiction.
    + intros _. split; reflexivity.
Qed.

(** Until the end of the wait the sketch is in [setup()]. *)
Lemma run_before_setup (w : world) (k n : nat) :
  first_ready w k -> (n < S (S k))%nat ->
  state_at w n = At_setup \/ exists j, state_at w n = At_while_Serial j.
Proof.
  intros [_ Hk] Hn. destruct n as [|j]; [left; reflexivity|].
  right. exists j. unfold state_at.
  rewrite run_waiting; [reflexivity|].
  intros i Hi. apply Hk. lia.
Qed.

(** X4: the sketch is in the main loop exactly when [Serial] has answered
    [true], [radio.begin()] has returned [RADIOLIB_ERR_NONE] and the step
    that ran [setup()] is over; it is in the idle loop of line 110 exactly
    when the same holds with any other result of [radio.begin()]. *)
Theorem main_loop_reached_iff (w : world) (n : nat) :
  ((exists ls, state_at w n = At_loop ls) <->
   begin_result w = RADIOLIB_ERR_NONE /\
   exists k, first_ready w k /\ (k + 2 <= n)%nat) /\
  (state_at w n = At_while_true <->
   begin_result w <> RADIOLIB_ERR_NONE /\
   exists k, first_ready w k /\ (k + 2 <= n)%nat).
Proof.
  assert (Hlate : forall k, first_ready w k ->
            state_at w n <> At_setup ->
            (forall j, state_at w n <> At_while_Serial j) ->
            (k + 2 <= n)%nat).
  { intros k Hk H1 H2.
    destruct (Nat.lt_ge_cases n (S (S k))) as [Hlt|Hge]; [|lia].
    destruct (run_before_setup w k n Hk Hlt) as [H|[j H]].
    - contradiction.
    - exfalso. exact (H2 j H). }
  pose proof (run_shape w n) as Hshape.
  split; split.
  - intros [ls Hs]. rewrite Hs in Hshape. cbn [shape] in Hshape.
    destruct Hshape as (k & loops & Hk & Hb & _).
    split; [exact Hb|]. exists k. split; [exact Hk|].
    apply (Hlate k Hk); rewrite Hs; [discriminate|intros j; discriminate].
  - intros (Hb & k & Hk & Hn).
    destruct (run_after_setup w k (n - S (S k)) Hk)
      as (c & loops & Hr & _ & Hok & _).
    replace (S (S k) + (n - S (S k)))%nat with n in Hr by lia.
    destruct (Hok Hb) as [ls ->]. exists ls.
    unfold state_at. rewrite Hr. reflexivity.
  - intros Hs. rewrite Hs in Hshape. cbn [shape] in Hshape.
    destruct Hshape as (k & Hk & Hb & _).
    split; [exact Hb|]. exists k. split; [exact Hk|].
    apply (Hlate k Hk); rewrite Hs; [discriminate|intros j; discriminate].
  - intros (Hb & k & Hk & Hn).
    destruct (run_after_setup w k (n - S (S k)) Hk)
      as (c & loops & Hr & _ & _ & Hbad).
    replace (S (S k) + (n - S (S k)))%nat with n in Hr by lia.
    destruct (Hbad Hb) as [-> _].
    unfold state_at. rewrite Hr. reflexivity.
Qed.

(** ** The calls of setup(), once and in order *)

Lemma filter_loop_events_setup_call (l : list event) :
  Forall loop_event l -> filter is_setup_call l = [].
Proof.
  induction 1 as [|e l He _ IH]; [reflexivity|].
  destruct e; simpl in *; try contradiction; exact IH.
Qed.

Lemma filter_waiting_setup_call (k : nat) :
  filter is_setup_call (waiting k) = [Serial_begin 115200].
Proof.
  induction k as [|k IH]; [reflexivity|].
  rewrite waiting_S, filter_app, IH. reflexivity.
Qed.

Lemma filter_setup_setup_call (w : world) :
  filter is_setup_call (Serial_ready true :: snd (setup w)) =
    if begin_result w =? RADIOLIB_ERR_NONE
    then skipn 1 setup_calls else firstn 5 (skipn 1 setup_calls).
Proof.
  setup_cases w; reflexivity.
Qed.

(** X1: at every moment of every execution, the calls made so far to
    [Serial.begin], the pins, the SPI bus and the driver's set-up and join
    operations are an initial segment of the nine calls of [setup()], in
    the order and with the arguments of the source: one call while
    waiting for [Serial], six when [radio.begin()] has failed, all nine in
    the main loop.  None of them is ever made twice. *)
Theorem setup_calls_once_in_order (w : world) (n : nat) :
  filter is_setup_call (trace w n) =
    match state_at w n with
    | At_setup => []
    | At_while_Serial _ => firstn 1 setup_calls
    | At_while_true => firstn 6 setup_calls
    | At_loop _ => setup_calls
    end.
Proof.
  pose proof (run_shape w n) as H.
  destruct (state_at w n) as [|k| |ls]; cbn [shape] in H.
  - rewrite H. reflexivity.
  - destruct H as [-> _]. apply filter_waiting_setup_call.
  - destruct H as (k & _ & Hb & ->). apply Z.eqb_neq in Hb.
    rewrite filter_app, filter_waiting_setup_call, filter_setup_setup_call, Hb.
    reflexivity.
  - destruct H as (k & loops & _ & Hb & Hl & ->). apply Z.eqb_eq in Hb.
    rewrite filter_app, filter_waiting_setup_call.
    rewrite filter_app, filter_setup_setup_call, Hb.
    rewrite (filter_loop_events_setup_call loops Hl). reflexivity.
Qed.

(** X2: no uplink is sent before the radio has been initialised and the
    activation has been attempted: along every execution each
    [sendReceive] comes after [radio.begin()] and after [activateOTAA]. *)
Theorem no_uplink_before_join_attempt (w : world) (n : nat) :
  precedes (eq radio_begin) is_sendReceive (trace w n) /\
  precedes (eq activateOTAA) is_sendReceive (trace w n).
Proof.
  assert (Hwait : forall (P : event -> Prop) k,
            precedes P is_sendReceive (waiting k)).
  { intros P k. apply precedes_quiet.
    eapply Forall_impl; [|apply waiting_wait_events].
    intros [] He Hs; try destruct Hs; exact He. }
  assert (Hset : forall (P : event -> Prop),
            precedes P is_sendReceive (Serial_ready true :: snd (setup w))).
  { intros P. apply precedes_quiet.
    constructor; [intros [] | apply setup_no_send]. }
  pose proof (run_shape w n) as H.
  destruct (state_at w n) as [|k| |ls]; cbn [shape] in H.
  - rewrite H. split; apply precedes_nil.
  - destruct H as [-> _]. split; apply Hwait.
  - destruct H as (k & _ & _ & ->).
    split; (apply precedes_app; [apply Hwait | right; apply Hset]).
  - destruct H as (k & loops & _ & Hb & _ & ->).
    assert (Hin : In radio_begin (snd (setup w)) /\
                  In activateOTAA (snd (setup w))).
    { rewrite (setup_radio_ok w Hb). cbn [snd]. unfold setup_join.
      rewrite !in_app_iff. simpl. tauto. }
    split; (apply precedes_app; [apply Hwait | right]);
      (apply precedes_app; [apply Hset | left]);
      right; apply Exists_exists; eexists; (split; [|reflexivity]); apply Hin.
Qed.

(** ** The wait for the serial port *)

Lemma delay_total_app (a b : list event) :
  delay_total (a ++ b) = delay_total a + delay_total b.
Proof.
  induction a as [|e a IH]; [reflexivity|].
  destruct e; simpl; rewrite ?IH; lia.
Qed.

Lemma delay_total_quiet (R : event -> Prop) (l : list event) :
  (forall ms, ~ R (delay ms)) -> Forall R l -> delay_total l = 0.
Proof.
  intros HR. induction 1 as [|e l He _ IH]; [reflexivity|].
  destruct e; simpl; try exact IH. exfalso. exact (HR _ He).
Qed.

Lemma delay_total_waiting (k : nat) : delay_total (waiting k) = 10 * Z.of_nat k.
Proof.
  induction k as [|k IH]; [reflexivity|].
  rewrite waiting_S, delay_total_app, IH. simpl delay_total. lia.
Qed.

(** X3: when [Serial] first answers [true] at its k-th evaluation,
    [setup()] has waited k times 10 ms, and the sketch never calls [delay]
    again: whatever the number of passes of [loop()], the time spent in
    [delay] stays 10 k ms. *)
Theorem delay_only_while_waiting_for_serial (w : world) (k n : nat) :
  first_ready w k -> (k + 2 <= n)%nat ->
  delay_total (trace w n) = 10 * Z.of_nat k.
Proof.
  intros Hk Hn.
  destruct (run_after_setup w k (n - S (S k)) Hk) as (c & loops & Hr & Hl & _).
  replace (S (S k) + (n - S (S k)))%nat with n in Hr by lia.
  unfold trace. rewrite Hr. cbn [snd].
  rewrite !delay_total_app, delay_total_waiting.
  rewrite (delay_total_quiet loop_event loops) by (auto; intros ms []).
  assert (Hs : delay_total (Serial_ready true :: snd (setup w)) = 0).
  { setup_cases w; reflexivity. }
  rewrite Hs. lia.
Qed.

(** ** What the result codes do not change *)

Lemma step_same_schedule (w w' : world) (c : control) :
  same_schedule_inputs w w' ->
  fst (step w c) = fst (step w' c) /\
  calls (snd (step w c)) = calls (snd (step w' c)).
Proof.
  intros (Hs & Hb & Hc). destruct c as [|k| |ls].
  - split; reflexivity.
  - cbn [step]. rewrite <- Hs. destruct (serial_ready w k).
    + unfold setup, setup_rf_switch, setup_join, join_outcome_of, report_join.
      rewrite <- Hb.
      destruct (begin_result w =? RADIOLIB_ERR_NONE);
        destruct (setDio2AsRfSwitch_result w =? RADIOLIB_ERR_NONE);
        destruct (setDio2AsRfSwitch_result w' =? RADIOLIB_ERR_NONE);
        destruct (activateOTAA_result w =? RADIOLIB_LORAWAN_NEW_SESSION);
        destruct (activateOTAA_result w' =? RADIOLIB_LORAWAN_NEW_SESSION);
        (split; [reflexivity | vm_compute; reflexivity]).
    + split; reflexivity.
  - split; reflexivity.
  - cbn [step]. unfold loop, millis_value. rewrite <- !Hc.
    destruct (60000 <? _).
    + destruct (sendReceive_result w (send_calls ls) =? RADIOLIB_ERR_NONE);
        destruct (sendReceive_result w' (send_calls ls) =? RADIOLIB_ERR_NONE);
        (split; [reflexivity | cbn; reflexivity]).
    + split; reflexivity.
Qed.

(** X5: the result codes of [setDio2AsRfSwitch], [activateOTAA] and
    [sendReceive] only change what is printed.  Two executions with the
    same serial port, the same [radio.begin()] result and the same clock
    are at the same control point, with the same [lastSendTime], after any
    number of steps, and have made the same calls to the hardware, the
    driver and the clock: a refused join or a failed uplink neither stops
    the schedule nor shifts it. *)
Theorem result_codes_do_not_change_schedule (w w' : world) :
  same_schedule_inputs w w' ->
  forall n, state_at w n = state_at w' n /\
            calls (trace w n) = calls (trace w' n).
Proof.
  intros Hsame n. induction n as [|n [IHs IHt]].
  - split; reflexivity.
  - unfold state_at, trace in *. rewrite !run_step. cbn [fst snd].
    unfold state_at, trace. rewrite IHs.
    destruct (step_same_schedule w w' (fst (run w' n)) Hsame) as [H1 H2].
    split; [exact H1|].
    unfold calls in *. rewrite !filter_app, IHt, H2. reflexivity.
Qed.

(** ** The report of an uplink *)

Lemma count_sends_app (a b : list event) :
  count_sends (a ++ b) = (count_sends a + count_sends b)%nat.
Proof.
  induction a as [|e a IH]; [reflexivity|].
  destruct e; simpl; rewrite ?IH; reflexivity.
Qed.

Lemma count_sends_quiet (l : list event) :
  Forall (fun e => ~ is_sendReceive e) l -> count_sends l = 0%nat.
Proof.
  induction 1 as [|e l He _ IH]; [reflexivity|].
  destruct e; simpl; try exact IH. exfalso. apply He. exact I.
Qed.

(** The only uplink of a list is where it is. *)
Lemma split_at_send (a b l l2 : list event) (x y : event) :
  Forall (fun e => ~ is_sendReceive e) a ->
  Forall (fun e => ~ is_sendReceive e) b ->
  is_sendReceive y ->
  a ++ x :: b = l ++ y :: l2 ->
  l = a /\ y = x /\ l2 = b.
Proof.
  intros Ha Hb Hy. revert l.
  induction Ha as [|e a He Ha IH]; intros l H; simpl in H.
  - destruct l as [|e' l]; simpl in H.
    + injection H as -> ->. repeat split.
    + injection H as -> ->. rewrite Forall_app in Hb.
      destruct Hb as [_ Hb]. inversion Hb; contradiction.
  - destruct l as [|e' l]; simpl in H.
    + injection H as -> _. contradiction.
    + injection H as -> H. destruct (IH l H) as (-> & -> & ->).
      repeat split.
Qed.

Lemma loop_events (w : world) (ls : loop_state) :
  snd (loop w ls) =
    if 60000 <? ulong_sub (millis_value w (millis_calls ls)) (lastSendTime ls)
    then [millis (clock w (millis_calls ls));
          millis (clock w (S (millis_calls ls)));
          Serial_println_empty;
          Serial_print "Sending 'Hello' packet... "]
         ++ sendReceive payload sizeof_payload
         :: report_send (sendReceive_result w (send_calls ls))
    else [millis (clock w (millis_calls ls))].
Proof.
  unfold loop, report_send. destruct (60000 <? _); reflexivity.
Qed.

Lemma step_quiet (w : world) (c : control) :
  (forall ls, c <> At_loop ls) ->
  Forall (fun e => ~ is_sendReceive e) (snd (step w c)).
Proof.
  intros Hc. destruct c as [|k| |ls].
  - repeat constructor. intros [].
  - cbn [step]. destruct (serial_ready w k).
    + pose proof (setup_no_send w) as Hq. destruct (setup w) as [c' ev].
      constructor; [intros [] | exact Hq].
    + repeat constructor; intros [].
  - constructor.
  - exfalso. exact (Hc ls eq_refl).
Qed.

Lemma report_inv_quiet (w : world) (tr ev : list event) :
  (forall l1 p len l2, tr = l1 ++ sendReceive p len :: l2 ->
     exists l3, l2 = report_send (sendReceive_result w (count_sends l1)) ++ l3) ->
  Forall (fun e => ~ is_sendReceive e) ev ->
  forall l1 p len l2, tr ++ ev = l1 ++ sendReceive p len :: l2 ->
    exists l3, l2 = report_send (sendReceive_result w (count_sends l1)) ++ l3.
Proof.
  intros Htr Hev l1 p len l2 H.
  apply app_eq_app in H. destruct H as [l [[Ht H]|[-> H]]].
  - destruct l as [|e l]; simpl in H.
    + subst ev. inversion Hev as [|? ? Hs _]. exfalso. apply Hs. exact I.
    + injection H as <- ->. destruct (Htr _ _ _ _ Ht) as [l3 ->].
      exists (l3 ++ ev). rewrite app_assoc. reflexivity.
  - subst ev. rewrite Forall_app in Hev. destruct Hev as [_ Hev].
    inversion Hev as [|? ? Hs _]. exfalso. apply Hs. exact I.
Qed.

Lemma report_inv_step (w : world) (c : control) (tr : list event) :
  report_inv w c tr ->
  report_inv w (fst (step w c)) (tr ++ snd (step w c)).
Proof.
  intros [Hrep Hcount].
  assert (Hquiet : (forall ls, c <> At_loop ls) ->
            report_inv w (fst (step w c)) (tr ++ snd (step w c))).
  { intros Hc. pose proof (step_quiet w c Hc) as Hq. split.
    - apply report_inv_quiet; assumption.
    - rewrite count_sends_app, (count_sends_quiet _ Hq), Hcount.
      destruct c as [|k| |ls]; cbn [step].
      + reflexivity.
      + destruct (serial_ready w k); [|reflexivity].
        unfold setup. destruct (_ =? _); reflexivity.
      + reflexivity.
      + exfalso. exact (Hc ls eq_refl). }
  destruct c as [|k| |ls]; try (apply Hquiet; intros ls'; discriminate).
  cbn [step]. pose proof (loop_events w ls) as Hev.
  assert (Hfst : send_calls (fst (loop w ls)) =
            (send_calls ls + count_sends (snd (loop w ls)))%nat).
  { rewrite loop_count_sends. unfold loop.
    destruct (60000 <? _); cbn [fst send_calls]; lia. }
  destruct (loop w ls) as [ls' ev]. cbn [fst snd] in *. split.
  - destruct (60000 <? _).
    + intros l1 p len l2 H. subst ev.
      apply app_eq_app in H. destruct H as [l [[Ht H]|[-> H]]].
      * destruct l as [|e l]; simpl in H; [discriminate H|].
        injection H as <- ->. destruct (Hrep _ _ _ _ Ht) as [l3 ->].
        eexists. rewrite <- app_assoc. reflexivity.
      * apply split_at_send in H.
        -- destruct H as (-> & _ & ->). exists [].
           rewrite app_nil_r, count_sends_app, Hcount. simpl.
           rewrite Nat.add_0_r. reflexivity.
        -- repeat constructor; intros [].
        -- unfold report_send. destruct (_ =? _); repeat constructor; intros [].
        -- exact I.
    + apply report_inv_quiet; [exact Hrep|].
      subst ev. repeat constructor. intros [].
  - rewrite count_sends_app, Hcount, Hfst. reflexivity.
Qed.

(** X6: every uplink is reported at once and with its own result: along
    every execution, what follows a [sendReceive] is "Packet sent!" when
    that call, the j-th of the execution, returned [RADIOLIB_ERR_NONE],
    and the failure line with the very code it returned otherwise. *)
Theorem uplink_result_reported (w : world) (n : nat)
    (l1 l2 : list event) (p : list Z) (len : Z) :
  trace w n = l1 ++ sendReceive p len :: l2 ->
  let state := sendReceive_result w (count_sends l1) in
  exists l3,
    l2 = (if state =? RADIOLIB_ERR_NONE then [Serial_println "Packet sent!"]
          else [Serial_print "Send FAILED. Error code: ";
                Serial_println_int state]) ++ l3.
Proof.
  intros H.
  assert (Hinv : report_inv w (state_at w n) (trace w n)).
  { apply run_invariant.
    - split; [|reflexivity]. intros [] ? ? ? Hnil; discriminate Hnil.
    - intros c tr. apply report_inv_step. }
  exact (proj1 Hinv _ _ _ _ H).
Qed.

(** ** When the next uplink is due *)

Lemma stamp_inv_step (w : world) (c : control) (tr : list event) :
  stamp_inv c tr -> stamp_inv (fst (step w c)) (tr ++ snd (step w c)).
Proof.
  intros H.
  assert (Hquiet : (forall ls, c <> At_loop ls) ->
            send_times 0 (tr ++ snd (step w c)) = []).
  { intros Hc. rewrite send_times_app.
    rewrite (send_times_quiet _ _ (step_quiet w c Hc)), app_nil_r.
    destruct c; try exact H. exfalso. exact (Hc _ eq_refl). }
  destruct c as [|k| |ls].
  - apply Hquiet. intros ls; discriminate.
  - specialize (Hquiet ltac:(intros ls; discriminate)).
    cbn [step] in *. destruct (serial_ready w k); [|exact Hquiet].
    unfold setup in *. destruct (_ =? _); cbn [fst snd stamp_inv] in *;
      [rewrite Hquiet; reflexivity | exact Hquiet].
  - apply Hquiet. intros ls; discriminate.
  - cbn [step stamp_inv] in *.
    pose proof (loop_send_times w ls (last_millis 0 tr)) as Hst.
    unfold loop in *.
    destruct (60000 <? _); cbn [fst snd lastSendTime stamp_inv] in *;
      rewrite send_times_app, Hst.
    + rewrite last_last. reflexivity.
    + rewrite app_nil_r. exact H.
Qed.

(** X7: in the main loop, [lastSendTime] is the wrapped time of the
    latest uplink (0 before the first), so that the next pass of [loop()]
    sends exactly when the time gone by since then, taken modulo 2^32,
    exceeds 60000.  While less than 2^32 ms (about 49.7 days) have gone by
    this is the true elapsed time: at exactly 60000 ms the pass does not
    send yet, at 60001 ms it does. *)
Theorem next_pass_sends_iff_elapsed (w : world) (n : nat) (ls : loop_state) :
  state_at w n = At_loop ls ->
  let elapsed :=
    clock w (millis_calls ls) - last (send_times 0 (trace w n)) 0 in
  lastSendTime ls = last (send_times 0 (trace w n)) 0 mod 2 ^ 32 /\
  count_sends (trace w (S n)) =
    (count_sends (trace w n)
     + if (60000 <? elapsed mod 2 ^ 32)%Z then 1 else 0)%nat /\
  (0 <= elapsed < 2 ^ 32 ->
   count_sends (trace w (S n)) =
     (count_sends (trace w n) + if (60000 <? elapsed)%Z then 1 else 0)%nat).
Proof.
  intros Hs elapsed.
  assert (Hinv : stamp_inv (state_at w n) (trace w n)).
  { apply run_invariant; [reflexivity|]. intros c tr. apply stamp_inv_step. }
  rewrite Hs in Hinv. cbn [stamp_inv] in Hinv.
  assert (Hnext : count_sends (trace w (S n)) =
            (count_sends (trace w n)
             + if (60000 <? elapsed mod 2 ^ 32)%Z then 1 else 0)%nat).
  { unfold trace at 1. rewrite run_step, Hs. cbn [snd step].
    pose proof (loop_count_sends w ls) as Hc.
    destruct (loop w ls) as [ls' ev]. cbn [snd] in *.
    rewrite count_sends_app, Hc, Hinv. unfold ulong_sub, millis_value.
    rewrite <- Zminus_mod. reflexivity. }
  split; [exact Hinv|]. split; [exact Hnext|].
  intros Hrange. rewrite Hnext, Z.mod_small by exact Hrange. reflexivity.
Qed.

(** ** How many uplinks there can be *)

Lemma late_inv_step (w : world) (c : control) (tr : list event) :
  monotonic w -> (forall k, 0 <= clock w k) ->
  late_inv w c tr -> late_inv w (fst (step w c)) (tr ++ snd (step w c)).
Proof.
  intros Hmono Hpos (Hu & Hs & Hl).
  split; [apply uplink_inv_step; assumption|].
  split; [apply stamp_inv_step; assumption|].
  rewrite send_times_app. apply Forall_app. split; [exact Hl|].
  destruct c as [|k| |ls];
    try (rewrite send_times_quiet;
         [constructor | apply step_quiet; intros ls'; discriminate]).
  cbn [step]. pose proof (loop_send_times w ls (last_millis 0 tr)) as Hst.
  destruct (loop w ls) as [ls' ev]. cbn [snd] in *. rewrite Hst.
  destruct (60000 <? _) eqn:Hdue; [|constructor].
  apply Z.ltb_lt in Hdue. repeat constructor.
  set (j := millis_calls ls) in *.
  pose proof (Hmono j (S j) ltac:(lia)) as Hstep.
  cbn [uplink_inv stamp_inv] in *. destruct Hu as [_ Hcov].
  destruct (send_times 0 tr) as [|t times].
  - cbn [last] in Hs. rewrite Hs, Zmod_0_l, ulong_sub_0 in Hdue.
    unfold millis_value in Hdue.
    pose proof (Z.mod_le (clock w j) ULONG_MOD (Hpos j) eq_refl). lia.
  - destruct Hcov as [Hnil|(g & Hg & _ & Hle)]; [discriminate Hnil|].
    inversion Hle as [|? ? Ht _]; subst.
    inversion Hl as [|? ? Hlate _]; subst.
    pose proof (Hmono g j ltac:(lia)). lia.
Qed.

Lemma spaced_nth (g : Z) (times : list Z) :
  0 <= g -> spaced g times ->
  forall base, Forall (fun t => base + g < t) times ->
  forall i t, nth_error times i = Some t -> base + g * (Z.of_nat i + 1) < t.
Proof.
  intros Hg. unfold spaced.
  induction 1 as [|a times Hs IH Ha]; intros base Hb i t Hn.
  - destruct i; discriminate Hn.
  - inversion Hb as [|? ? Hba _]; subst. destruct i as [|i]; simpl in Hn.
    + injection Hn as <-. lia.
    + assert (Hnext : a + g * (Z.of_nat i + 1) < t).
      { apply (IH a); [|exact Hn].
        eapply Forall_impl; [|exact Ha]. intros x Hx. cbn beta in Hx. lia. }
      nia.
Qed.

(** X8: under a clock that starts at boot and never runs backwards, the
    uplinks cannot come faster than one per minute from boot on: the
    (i+1)-th uplink of an execution is made later than (i+1) times
    60000 ms after boot. *)
Theorem uplink_count_bounded_by_time (w : world) :
  monotonic w -> (forall k, 0 <= clock w k) ->
  forall n i t,
    nth_error (send_times 0 (trace w n)) i = Some t ->
    60000 * (Z.of_nat i + 1) < t.
Proof.
  intros Hmono Hpos n i t Hn.
  assert (Hinv : late_inv w (state_at w n) (trace w n)).
  { apply run_invariant.
    - split; [reflexivity|]. split; [reflexivity|constructor].
    - intros c tr. apply late_inv_step; assumption. }
  destruct Hinv as (Hu & _ & Hl).
  assert (Hsp : spaced 60000 (send_times 0 (trace w n))).
  { destruct (state_at w n); cbn [uplink_inv] in Hu;
      try (rewrite Hu; constructor). apply Hu. }
  apply (spaced_nth 60000 _ ltac:(lia) Hsp 0); [|exact Hn].
  eapply Forall_impl; [|exact Hl]. intros x Hx. cbn beta in Hx. lia.
Qed.

(** ** The pins *)

(** X9: the seven pins the sketch hands to the radio object and to
    [SPI.begin] are pairwise distinct; [SPI.begin] is always given the
    radio's chip select as its fourth argument; and the only GPIO the
    sketch ever configures or drives itself is the very pin it gave the
    radio object as DIO1. *)
Theorem pins_of_the_sketch (w : world) (n : nat) :
  NoDup [module_cs radio; module_dio1 radio; module_rst radio;
         module_busy radio; LORA_SCK_PIN; LORA_MISO_PIN; LORA_MOSI_PIN] /\
  Forall (fun e => match e with
                   | pinMode p _ | digitalWrite p _ => p = module_dio1 radio
                   | SPI_begin sck miso mosi ss =>
                       sck = LORA_SCK_PIN /\ miso = LORA_MISO_PIN /\
                       mosi = LORA_MOSI_PIN /\ ss = module_cs radio
                   | _ => True
                   end) (trace w n).
Proof.
  split.
  - repeat constructor; simpl; intros H;
      repeat (destruct H as [H|H]; [discriminate H|]); exact H.
  - apply trace_Forall.
    + intros [] He; try exact I; destruct He.
    + intros [] He; try exact I; destruct He.
    + setup_cases w; repeat constructor.
Qed.

End Sketch.





(** * The model at work *)

Ltac show_first_ready :=
  split;
  [ reflexivity
  | let j := fresh "j" in
    let Hj := fresh "Hj" in
    intros j Hj; repeat (destruct j as [|j]; [reflexivity|]); lia ].

(** A clock that wraps between the first and the second uplink. *)
Lemma uplinks_spaced_across_wraparound :
  monotonic world_join_refused /\
  spaced 60000
    (send_times 0 (trace (RL := radiolib_values) world_join_refused 20)).
Proof.
  assert (H : monotonic world_join_refused).
  { intros i j Hij. cbn [clock world_join_refused]. lia. }
  split; [exact H|].
  exact (proj2 (uplinks_spaced_by_interval (RL := radiolib_values)
                  world_join_refused H) 20%nat).
Defined.

(** The claim of C2 fails: the join is refused with -1116 and the first
    pass of [loop()] sends all the same. *)
Lemma join_refused_uplink_still_sent :
  join_outcome_of (RL := radiolib_values)
    (activateOTAA_result world_join_refused) = JoinFailed (-1116) /\
  exists l1 l2,
    trace (RL := radiolib_values) world_join_refused 5 =
      l1 ++ report_join (JoinFailed (-1116)) ++ l2 /\
    In (sendReceive [0x48; 0x65; 0x6C; 0x6C; 0x6F] 5) l2.
Proof.
  split; [reflexivity|].
  exists (firstn 28 (trace (RL := radiolib_values) world_join_refused 5)).
  exists (skipn 31 (trace (RL := radiolib_values) world_join_refused 5)).
  split; [reflexivity|]. vm_compute. tauto.
Qed.

Lemma join_refused_keeps_looping :
  exists ls loops,
    run (RL := radiolib_values) world_join_refused (S (S 2) + 1) =
      (At_loop ls,
       trace (RL := radiolib_values) world_join_refused (S (S 2)) ++ loops) /\
    Forall loop_event loops /\
    (60000 < ulong_sub (millis_value world_join_refused (millis_calls ls))
               (lastSendTime ls) ->
     exists ls',
       run (RL := radiolib_values) world_join_refused (S (S (S 2)) + 1) =
         (At_loop ls',
          trace (RL := radiolib_values) world_join_refused (S (S 2) + 1)
            ++ snd (loop (RL := radiolib_values) world_join_refused ls)) /\
       In (sendReceive payload sizeof_payload)
          (snd (loop (RL := radiolib_values) world_join_refused ls))).
Proof.
  apply (join_failure_keeps_looping_and_sending (RL := radiolib_values)
           world_join_refused 2%nat).
  - show_first_ready.
  - reflexivity.
  - simpl. lia.
Defined.

Lemma join_refused_code_reported :
  join_outcome_of (RL := radiolib_values) (-1116) = JoinFailed (-1116) /\
  exists pre,
    trace (RL := radiolib_values) world_join_refused 4 =
      pre ++ [activateOTAA;
              Serial_print "Join FAILED. Error code: ";
              Serial_println_int (-1116);
              Serial_println "Check Keys (nwkKey/appKey must be identical) and TTN settings (must be 1.0.3)."].
Proof.
  apply (join_result_reported_unchanged (RL := radiolib_values)
           world_join_refused 2%nat).
  - show_first_ready.
  - reflexivity.
  - simpl. lia.
Defined.

Lemma radio_dead_halts :
  Forall (fun e => ~ join_or_send e)
    (trace (RL := radiolib_values) world_radio_dead 10) /\
  run (RL := radiolib_values) world_radio_dead (2 + 8) =
    (At_while_true, trace (RL := radiolib_values) world_radio_dead 2).
Proof.
  assert (Hb : begin_result world_radio_dead
               <> RADIOLIB_ERR_NONE (RadioLib := radiolib_values)).
  { simpl. lia. }
  pose proof (radio_init_failure_halts (RL := radiolib_values)
                world_radio_dead Hb) as [Hquiet Hhalt].
  split; [apply Hquiet|].
  apply (Hhalt 0%nat). show_first_ready.
Defined.

Lemma rf_switch_warning_then_join :
  exists l1 l2,
    trace (RL := radiolib_values) world_join_refused 4 =
      l1 ++ [setDio2AsRfSwitch true;
             Serial_print "setDio2AsRfSwitch failed! Code: ";
             Serial_println_int (-2);
             radio_begin] ++ l2 /\
    (begin_result world_join_refused
       = RADIOLIB_ERR_NONE (RadioLib := radiolib_values) ->
     In activateOTAA l2 /\
     state_at (RL := radiolib_values) world_join_refused 4 = At_loop loop_init).
Proof.
  apply (rf_switch_failure_is_not_fatal (RL := radiolib_values)
           world_join_refused 2%nat).
  - show_first_ready.
  - simpl. lia.
Defined.

Lemma no_monitor_no_bringup :
  state_at (RL := radiolib_values) world_no_monitor 8 = At_while_Serial 7 /\
  trace (RL := radiolib_values) world_no_monitor 8 =
    waiting 7 /\
  Forall (fun e => ~ bringup_event e)
    (trace (RL := radiolib_values) world_no_monitor 8).
Proof.
  apply (proj2 (serial_gates_bringup (RL := radiolib_values) world_no_monitor)).
  intros k. reflexivity.
Defined.

Lemma joined_first_uplink_after_60s :
  (forall k, 0 <= clock world_joined k) /\
  precedes reading_after_first_interval is_sendReceive
    (trace (RL := radiolib_values) world_joined 8).
Proof.
  assert (H : forall k, 0 <= clock world_joined k).
  { intros k. cbn [clock world_joined]. lia. }
  split; [exact H|].
  apply (no_uplink_in_first_interval (RL := radiolib_values) world_joined H).
Defined.

Lemma serial_ready_at_third_poll_waits_20ms :
  delay_total (trace (RL := radiolib_values) world_join_refused 30) = 10 * 2.
Proof.
  apply (delay_only_while_waiting_for_serial (RL := radiolib_values)
           world_join_refused 2 30).
  - show_first_ready.
  - lia.
Defined.

Lemma refused_and_accepted_join_same_schedule :
  state_at (RL := radiolib_values) world_join_refused 20 =
    state_at (RL := radiolib_values) world_join_accepted 20 /\
  calls (trace (RL := radiolib_values) world_join_refused 20) =
    calls (trace (RL := radiolib_values) world_join_accepted 20).
Proof.
  apply (result_codes_do_not_change_schedule (RL := radiolib_values)
           world_join_refused world_join_accepted).
  split; [|split]; reflexivity.
Defined.

Lemma failed_uplink_reported_with_its_code :
  exists l3,
    skipn 32 (trace (RL := radiolib_values) world_join_accepted 5) =
      [Serial_print "Send FAILED. Error code: "; Serial_println_int (-1101)]
      ++ l3.
Proof.
  apply (uplink_result_reported (RL := radiolib_values) world_join_accepted 5
           (firstn 31 (trace (RL := radiolib_values) world_join_accepted 5))
           (skipn 32 (trace (RL := radiolib_values) world_join_accepted 5))
           payload sizeof_payload).
  reflexivity.
Defined.

Lemma first_pass_due_30s_before_wraparound :
  lastSendTime loop_init =
    last (send_times 0 (trace (RL := radiolib_values) world_join_refused 4)) 0
      mod 2 ^ 32 /\
  count_sends (trace (RL := radiolib_values) world_join_refused 5) =
    (count_sends (trace (RL := radiolib_values) world_join_refused 4) + 1)%nat.
Proof.
  pose proof (next_pass_sends_iff_elapsed (RL := radiolib_values)
                world_join_refused 4 loop_init eq_refl) as (H1 & H2 & _).
  split; [exact H1 | exact H2].
Defined.

Lemma second_uplink_after_two_minutes :
  monotonic world_join_refused /\
  nth_error
    (send_times 0 (trace (RL := radiolib_values) world_join_refused 20)) 1 =
    Some 4295057296 /\
  60000 * (Z.of_nat 1 + 1) < 4295057296.
Proof.
  assert (Hmono : monotonic world_join_refused).
  { intros i j Hij. cbn [clock world_join_refused]. lia. }
  assert (Hpos : forall k, 0 <= clock world_join_refused k).
  { intros k. cbn [clock world_join_refused]. lia. }
  assert (Hnth : nth_error
            (send_times 0 (trace (RL := radiolib_values) world_join_refused 20))
            1 = Some 4295057296) by reflexivity.
  split; [exact Hmono|]. split; [exact Hnth|].
  exact (uplink_count_bounded_by_time (RL := radiolib_values)
           world_join_refused Hmono Hpos 20%nat 1%nat 4295057296 Hnth).
Defined.

Lemma joined_pin_powered_then_radio_begin :
  exists l1 l2 l3 l4,
    trace (RL := radiolib_values) world_joined (S (S 0) + 3) =
      l1 ++ pinMode 14 OUTPUT :: l2 ++ digitalWrite 14 HIGH
         :: l3 ++ radio_begin :: l4.
Proof.
  apply (proj2 (proj2 (proj2
           (rf_switch_powered_before_radio_begin (RL := radiolib_values)
              world_joined 0)))).
  show_first_ready.
Defined.

Lemma joined_version_forced_then_activation :
  exists l1 l2 l3 l4,
    trace (RL := radiolib_values) world_joined (S (S 0) + 3) =
      l1 ++ setMacVersion LORAWAN_VERSION_1_0_3
         :: l2 ++ beginOTAA joinEUI devEUI nwkKey appKey
         :: l3 ++ activateOTAA :: l4.
Proof.
  apply (proj2 (proj2 (proj2
           (mac_version_forced_before_activation (RL := radiolib_values)
              world_joined 0)))).
  - show_first_ready.
  - reflexivity.
Defined.

(** The claim of C10 fails in its last clause: the join succeeds 75 s
    after boot and the first pass of [loop()] sends right after it. *)
Lemma late_join_uplink_sent_at_once :
  join_outcome_of (RL := radiolib_values)
    (activateOTAA_result world_late_monitor) = Joined /\
  exists l1 l2,
    trace (RL := radiolib_values) world_late_monitor 3 =
      l1 ++ [activateOTAA;
             Serial_println "!!! JOINED SUCCESSFULLY !!!";
             millis 75000; millis 75001;
             Serial_println_empty;
             Serial_print "Sending 'Hello' packet... ";
             sendReceive [0x48; 0x65; 0x6C; 0x6C; 0x6F] 5] ++ l2.
Proof.
  split; [reflexivity|].
  exists (firstn 21 (trace (RL := radiolib_values) world_late_monitor 3)).
  exists (skipn 28 (trace (RL := radiolib_values) world_late_monitor 3)).
  reflexivity.
Qed.
